(** * Verification model of the job queue, dedup store and ranking of
      [src/index.js] (auto-jobhunter).

    The persistent documents [jobs.json] and [jobQueue.json] are modelled as
    an explicit store threaded through every async function; the outside
    collaborators (the SMTP transport, the resume upload and the Gemini
    answer) are oracles passed in as arguments. *)

From Stdlib Require Import String Ascii List Arith Bool Lia ZArith Sorted Permutation.
Import ListNotations.
Open Scope string_scope.

(* ------------------------------------------------------------------ *)
(** ** JavaScript string helpers *)

Module JS.

(** [String.prototype.toLowerCase], on the ASCII range. *)
Definition lower_char (c : ascii) : ascii :=
  let n := nat_of_ascii c in
  if ((65 <=? n) && (n <=? 90))%nat then ascii_of_nat (n + 32)%nat else c.

(** [s.toLowerCase()] on ASCII text: the letters [A]-[Z] become [a]-[z]
    and every other character is kept. JavaScript also lower-cases
    non-ASCII letters; this model leaves them unchanged. *)
Fixpoint toLowerCase (s : string) : string :=
  match s with
  | EmptyString => EmptyString
  | String c s' => String (lower_char c) (toLowerCase s')
  end.

Fixpoint startsWith (s pre : string) : bool :=
  match pre, s with
  | EmptyString, _ => true
  | String _ _, EmptyString => false
  | String c pre', String d s' => Ascii.eqb c d && startsWith s' pre'
  end.

(** [s.includes(sub)]: [sub] occurs at some position of [s]. *)
Fixpoint includes (s sub : string) : bool :=
  startsWith s sub ||
  match s with
  | EmptyString => false
  | String _ s' => includes s' sub
  end.

(** An optional string field of a JS object: [None] is [undefined]. *)
Definition truthy (o : option string) : bool :=
  match o with
  | Some s => negb (String.eqb s EmptyString)
  | None => false
  end.

(** [o || d] *)
Definition or_default (o : option string) (d : string) : string :=
  match o with
  | Some s => if String.eqb s EmptyString then d else s
  | None => d
  end.

(** [`${o}`]: a missing field renders as the text [undefined]. *)
Definition tmpl (o : option string) : string :=
  match o with
  | Some s => s
  | None => "undefined"
  end.

(** [s.replace(/\\n/g, '\n')]: a backslash followed by [n] becomes a
    newline character. *)
Fixpoint unescape_newlines (s : string) : string :=
  match s with
  | String c1 (String c2 rest as tl) =>
      if Ascii.eqb c1 "092"%char && Ascii.eqb c2 "n"%char
      then String "010"%char (unescape_newlines rest)
      else String c1 (unescape_newlines tl)
  | String c EmptyString => String c EmptyString
  | EmptyString => EmptyString
  end.

(** [array.filter(Boolean)] over an array of optional strings. *)
Fixpoint filter_Boolean (l : list (option string)) : list string :=
  match l with
  | [] => []
  | o :: l' =>
      match o with
      | Some s => if truthy o then s :: filter_Boolean l' else filter_Boolean l'
      | None => filter_Boolean l'
      end
  end.

End JS.

Import JS.

(* ------------------------------------------------------------------ *)
(** ** Data model *)

(** A job listing as returned by discovery (the [jobs] array of the
    Gemini answer), with the [score] field added by ranking. *)
Record Job := mkJob {
  company : string;
  role : option string;
  snippet : option string;
  requirements : option string;
  workType : option string;
  companyType : option string;
  isFamous : bool;
  fundingStage : option string;
  hrEmail : option string;
  decisionMakerEmail : option string;
  emailSubject : option string;
  emailBody : option string;
  score : nat
}.

Definition with_score (j : Job) (s : nat) : Job :=
  {| company := company j; role := role j; snippet := snippet j;
     requirements := requirements j; workType := workType j;
     companyType := companyType j; isFamous := isFamous j;
     fundingStage := fundingStage j; hrEmail := hrEmail j;
     decisionMakerEmail := decisionMakerEmail j;
     emailSubject := emailSubject j; emailBody := emailBody j;
     score := s |}.

(** [profile.skills]; a missing array is the empty list. *)
Record Skills := mkSkills {
  programmingLanguages : list string;
  frameworks : list string;
  databases : list string;
  tools : list string;
  other : list string
}.

Record Profile := mkProfile {
  name : option string;
  skills : option Skills
}.

(** [profile || {}] *)
Definition empty_profile : Profile := mkProfile None None.

(* ------------------------------------------------------------------ *)
(** ** Ranking: [scoreJob] *)

Definition allSkills (profile : Profile) : list string :=
  match skills profile with
  | Some sk => programmingLanguages sk ++ frameworks sk ++ databases sk
               ++ tools sk ++ other sk
  | None => []
  end.

Definition scoreJob (job : Job) (profile : Profile) : nat :=
  let score0 := 0 in
  let workType := toLowerCase (or_default (workType job) EmptyString) in
  let score1 :=
    if String.eqb workType "remote" then score0 + 100
    else if String.eqb workType "hybrid" then score0 + 50
    else if String.eqb workType "onsite" then score0 + 10
    else score0 in
  let companyType := toLowerCase (or_default (companyType job) EmptyString) in
  let score2 :=
    if includes companyType "foreign" || includes companyType "international"
    then score1 + 40 else score1 in
  let score3 := if includes companyType "startup" then score2 + 30 else score2 in
  let score4 := if isFamous job then score3 + 25 else score3 in
  let jobDescription :=
    toLowerCase (tmpl (role job) ++ " " ++ tmpl (snippet job) ++ " "
                 ++ or_default (requirements job) EmptyString) in
  let matchedSkills :=
    fold_left (fun n skill =>
                 if includes jobDescription (toLowerCase skill) then S n else n)
              (allSkills profile) 0 in
  let score5 := score4 + matchedSkills * 15 in
  let funding := toLowerCase (or_default (fundingStage job) EmptyString) in
  if includes funding "series b" || includes funding "series c" then score5 + 20
  else if includes funding "series a" then score5 + 15
  else score5.

(* ------------------------------------------------------------------ *)
(** ** Persistent documents *)

Inductive Status := sent | failed.

(** An entry of [db.jobs]: the listing spread with its outcome
    (timestamps are not modelled). *)
Record HistoryRecord := mkRecord {
  rec_job : Job;
  status : Status;
  errorMessage : option string
}.

Record JobsDb := mkDb {
  jobs : list HistoryRecord;
  sentEmails : list string;
  sentCompanies : list string
}.

(** The content of a backing file: absent, present but not parseable
    JSON, or a parsed document. *)
Inductive Doc (A : Type) :=
| Missing
| Garbage
| Holds (a : A).
Arguments Missing {A}.
Arguments Garbage {A}.
Arguments Holds {A} a.

Record Store := mkStore {
  jobs_file : Doc JobsDb;        (* jobs.json *)
  queue_file : Doc (list Job)    (* jobQueue.json *)
}.

Definition empty_db : JobsDb := mkDb [] [] [].

Definition loadJobsDb (st : Store) : JobsDb :=
  match jobs_file st with
  | Holds db => db
  | _ => empty_db
  end.

Definition saveJobsDb (db : JobsDb) (st : Store) : Store :=
  mkStore (Holds db) (queue_file st).

Definition loadQueue (st : Store) : list Job :=
  match queue_file st with
  | Holds q => q
  | _ => []
  end.

Definition saveQueue (q : list Job) (st : Store) : Store :=
  mkStore (jobs_file st) (Holds q).

Definition addJobsToQueue (js : list Job) (st : Store) : Store :=
  saveQueue (loadQueue st ++ js)%list st.

(** [queue.splice(jobIndex, 1)] *)
Fixpoint splice1 {A} (l : list A) (i : nat) : list A :=
  match l, i with
  | [], _ => []
  | _ :: l', 0 => l'
  | x :: l', S i' => x :: splice1 l' i'
  end.

Definition removeJobFromQueue (jobIndex : nat) (st : Store) : Store * option Job :=
  let queue := loadQueue st in
  if Nat.ltb jobIndex (length queue) then
    (saveQueue (splice1 queue jobIndex) st, nth_error queue jobIndex)
  else (st, None).

Definition getQueueSize (st : Store) : nat := length (loadQueue st).

Definition isEmailSent (email : string) (st : Store) : bool :=
  existsb (String.eqb (toLowerCase email)) (sentEmails (loadJobsDb st)).

Definition isCompanySent (c : string) (st : Store) : bool :=
  existsb (String.eqb (toLowerCase c)) (sentCompanies (loadJobsDb st)).

(** [if (x) arr.push(x.toLowerCase())] *)
Definition push_if (o : option string) : list string :=
  match o with
  | Some s => if truthy o then [toLowerCase s] else []
  | None => []
  end.

Definition markJobSent (job : Job) (st : Store) : Store :=
  let db := loadJobsDb st in
  saveJobsDb
    (mkDb (jobs db ++ [mkRecord job sent None])
          (sentEmails db ++ push_if (hrEmail job) ++ push_if (decisionMakerEmail job))
          (sentCompanies db ++ [toLowerCase (company job)]))
    st.

Definition markJobFailed (job : Job) (msg : string) (st : Store) : Store :=
  let db := loadJobsDb st in
  saveJobsDb
    (mkDb (jobs db ++ [mkRecord job failed (Some msg)])
          (sentEmails db)
          (sentCompanies db ++ [toLowerCase (company job)]))
    st.

(* ------------------------------------------------------------------ *)
(** ** Queue processor *)

Definition MAX_EMAILS_PER_RUN : nat := 12.
Definition EMAIL_INTERVAL_MS : Z := 5 * 60 * 1000.

(** Observable actions, in the order they happen. *)
Inductive Event :=
| EvUpload                                  (* uploadResume *)
| EvDiscover                                (* analyzeAndFindJobs *)
| EvAttempt (j : Job) (error : option string) (* one queue item; None = sent *)
| EvDelay (ms : Z)                          (* await delay(ms) *)
| EvEnqueue (js : list Job).                (* addJobsToQueue *)

Section QueueProcessor.

(** [transporter.sendMail]: [None] when it resolves, [Some message] when
    it rejects. Arguments: recipients, subject, body, sender name. *)
Variable sendMail : list string -> string -> string -> string -> option string.

Definition sendEmail (recipients : list (option string))
    (subject body senderName : string) : option string :=
  let toList := filter_Boolean recipients in
  match toList with
  | [] => Some "No valid recipients"
  | _ => sendMail toList subject body senderName
  end.

(** The [recipients], [subject] and [body] constants of the loop body. *)
Definition jobRecipients (job : Job) : list (option string) :=
  ([hrEmail job] ++ (if truthy (decisionMakerEmail job)
                     then [decisionMakerEmail job] else []))%list.

Definition jobSubject (job : Job) : string :=
  or_default (emailSubject job)
    ("Application for " ++ tmpl (role job) ++ " at " ++ company job).

Definition jobBody (job : Job) : string :=
  unescape_newlines (or_default (emailBody job) EmptyString).

(** Body of the [for] loop for one item, including its [try/catch]. *)
Definition processOne (senderName : string) (job : Job) (st : Store)
    : Store * option string :=
  let recipients := jobRecipients job in
  let subject := jobSubject job in
  let body := jobBody job in
  if String.eqb body EmptyString then
    let msg := "No email body generated" in
    (markJobFailed job msg st, Some msg)
  else
    match sendEmail recipients subject body senderName with
    | None =>
        let st1 := markJobSent job st in
        let st2 := fst (removeJobFromQueue 0 st1) in
        (st2, None)
    | Some msg => (markJobFailed job msg st, Some msg)
    end.

(** [for (let i = ...; i < jobsToProcess.length; i++)], from index [i] on,
    returning the store, the events and [sentCount]. *)
Fixpoint processLoop (senderName : string) (i len : nat) (items : list Job)
    (st : Store) : Store * list Event * nat :=
  match items with
  | [] => (st, [], 0)
  | job :: rest =>
      let '(st1, r) := processOne senderName job st in
      let wait := if Nat.ltb i (len - 1) then [EvDelay EMAIL_INTERVAL_MS] else [] in
      let '(st2, evs, sentCount) := processLoop senderName (S i) len rest st1 in
      (st2, (EvAttempt job r :: wait ++ evs)%list,
       match r with None => S sentCount | Some _ => sentCount end)
  end.

Definition jobsToProcessOf (clearAll : bool) (queue : list Job) : list Job :=
  if clearAll then queue else firstn MAX_EMAILS_PER_RUN queue.

Definition processJobQueue (senderName : string) (clearAll : bool) (st : Store)
    : Store * list Event * nat :=
  let queueSize := getQueueSize st in
  if Nat.eqb queueSize 0 then (st, [], 0)
  else
    let queue := loadQueue st in
    let jobsToProcess := jobsToProcessOf clearAll queue in
    processLoop senderName 0 (length jobsToProcess) jobsToProcess st.

End QueueProcessor.

(* ------------------------------------------------------------------ *)
(** ** Discovery, ranking and the dedup filter *)

(** The JSON object parsed out of the Gemini answer. *)
Record GeminiAnswer := mkAnswer {
  ans_profile : option Profile;
  ans_jobs : option (list Job)
}.

(** [jobs.sort((a, b) => b.score - a.score)]: a stable sort by
    decreasing score. *)
Fixpoint insert_by_score (x : Job) (l : list Job) : list Job :=
  match l with
  | [] => [x]
  | y :: l' => if Nat.ltb (score x) (score y) then y :: insert_by_score x l'
               else x :: l
  end.

Fixpoint sortByScore (l : list Job) : list Job :=
  match l with
  | [] => []
  | x :: l' => insert_by_score x (sortByScore l')
  end.

(** [analyzeAndFindJobs]: [None] stands for every path that ends in the
    [{ profile: null, analysis: null, jobs: [] }] result (request error,
    no JSON in the answer, parse error). *)
Definition analyzeAndFindJobs (answer : option GeminiAnswer)
    : option Profile * list Job :=
  match answer with
  | None => (None, [])
  | Some r =>
      let jobs := match ans_jobs r with Some l => l | None => [] end in
      let profile := match ans_profile r with Some p => p | None => empty_profile end in
      (ans_profile r,
       sortByScore (map (fun job => with_score job (scoreJob job profile)) jobs))
  end.

(** [job.hrEmail ? await isEmailSent(job.hrEmail) : false] *)
Definition hrEmailSent (job : Job) (st : Store) : bool :=
  match hrEmail job with
  | Some e => if truthy (hrEmail job) then isEmailSent e st else false
  | None => false
  end.

(** The [Filtering already contacted] loop; it only reads the store. *)
Fixpoint filterNewJobs (jobs : list Job) (st : Store) : list Job :=
  match jobs with
  | [] => []
  | job :: rest =>
      let hrEmailSent := hrEmailSent job st in
      let companySent := isCompanySent (company job) st in
      if hrEmailSent then filterNewJobs rest st
      else if companySent then filterNewJobs rest st
      else job :: filterNewJobs rest st
  end.

(* ------------------------------------------------------------------ *)
(** ** Cycle orchestration *)

Section Cycles.

Variable sendMail : list string -> string -> string -> string -> option string.
(** [process.env.SENDER_NAME || 'Job Applicant'] *)
Variable SENDER_NAME : string.

(** [runJobApplicationCycle]; [uploadOk] is false when [uploadResume]
    throws, which the outer [catch] turns into the end of the cycle. *)
Definition runJobApplicationCycle (uploadOk : bool)
    (answer : option GeminiAnswer) (st : Store) : Store * list Event :=
  if negb uploadOk then (st, [EvUpload]) else
  let '(profile, jobs) := analyzeAndFindJobs answer in
  let evs0 := [EvUpload; EvDiscover] in
  match profile with
  | None => (st, evs0)
  | Some p =>
      let senderName := or_default (name p) SENDER_NAME in
      let '(st1, evs1, stop) :=
        if Nat.ltb 0 (getQueueSize st) then
          let '(st', evs, processedCount) :=
            processJobQueue sendMail senderName false st in
          (st', evs, Nat.leb MAX_EMAILS_PER_RUN processedCount)
        else (st, [], false) in
      if stop then (st1, (evs0 ++ evs1)%list) else
      match jobs with
      | [] => (st1, (evs0 ++ evs1)%list)
      | _ =>
          let newJobs := filterNewJobs jobs st1 in
          match newJobs with
          | [] => (st1, (evs0 ++ evs1)%list)
          | _ =>
              let st2 := addJobsToQueue newJobs st1 in
              let '(st3, evs2, _) := processJobQueue sendMail senderName false st2 in
              (st3, (evs0 ++ evs1 ++ [EvEnqueue newJobs] ++ evs2)%list)
          end
      end
  end.

(** [initialStartupRun]: the same steps in Unbounded mode, without the
    early stop. *)
Definition initialStartupRun (uploadOk : bool)
    (answer : option GeminiAnswer) (st : Store) : Store * list Event :=
  if negb uploadOk then (st, [EvUpload]) else
  let '(profile, jobs) := analyzeAndFindJobs answer in
  let evs0 := [EvUpload; EvDiscover] in
  match profile with
  | None => (st, evs0)
  | Some p =>
      let senderName := or_default (name p) SENDER_NAME in
      let '(st1, evs1) :=
        if Nat.ltb 0 (getQueueSize st) then
          let '(st', evs, _) := processJobQueue sendMail senderName true st in
          (st', evs)
        else (st, []) in
      match jobs with
      | [] => (st1, (evs0 ++ evs1)%list)
      | _ =>
          let newJobs := filterNewJobs jobs st1 in
          match newJobs with
          | [] => (st1, (evs0 ++ evs1)%list)
          | _ =>
              let st2 := addJobsToQueue newJobs st1 in
              let '(st3, evs2, _) := processJobQueue sendMail senderName true st2 in
              (st3, (evs0 ++ evs1 ++ [EvEnqueue newJobs] ++ evs2)%list)
          end
      end
  end.

End Cycles.

(** The write of [verifySetup]: [jobs.json] is created empty when
    [fs.access] fails, i.e. when the file is absent. *)
Definition verifySetupDb (st : Store) : Store :=
  match jobs_file st with
  | Missing => saveJobsDb empty_db st
  | _ => st
  end.

(** Every operation of the program that writes a document, as a step on
    the store. *)
Inductive SysStep : Store -> Store -> Prop :=
| step_markJobSent : forall j st, SysStep st (markJobSent j st)
| step_markJobFailed : forall j msg st, SysStep st (markJobFailed j msg st)
| step_addJobsToQueue : forall js st, SysStep st (addJobsToQueue js st)
| step_removeJobFromQueue : forall i st, SysStep st (fst (removeJobFromQueue i st))
| step_processJobQueue : forall sm nm all st,
    SysStep st (fst (fst (processJobQueue sm nm all st)))
| step_cycle : forall sm dflt up ans st,
    SysStep st (fst (runJobApplicationCycle sm dflt up ans st))
| step_startup : forall sm dflt up ans st,
    SysStep st (fst (initialStartupRun sm dflt up ans st))
| step_verifySetup : forall st, SysStep st (verifySetupDb st).

Inductive SysSteps : Store -> Store -> Prop :=
| steps_refl : forall st, SysSteps st st
| steps_cons : forall st1 st2 st3, SysStep st1 st2 -> SysSteps st2 st3 -> SysSteps st1 st3.

(* ------------------------------------------------------------------ *)
(** ** Concrete inputs used by the examples below *)

Definition listing (c hr body : string) : Job :=
  mkJob c (Some "Backend Engineer") (Some "Build APIs") None (Some "remote")
        None false None (Some hr) None (Some "Application") (Some body) 0.

Definition job_a : Job := listing "Acme" "a@acme.io" "Hello".
Definition job_b : Job := listing "Beta" "b@beta.io" "Hello".

(** A transport that accepts every message. *)
Definition smtp_ok (to : list string) (subject body sender : string) : option string :=
  None.

(** A transport that rejects mail addressed to [a@acme.io] only. *)
Definition smtp_rejects_a (to : list string) (subject body sender : string)
    : option string :=
  match to with
  | [x] => if String.eqb x "a@acme.io" then Some "550 mailbox unavailable" else None
  | _ => None
  end.

Definition store_of (q : list Job) : Store := mkStore Missing (Holds q).

(* ------------------------------------------------------------------ *)
(** ** Views on traces and stores used by the statements *)

(** The timing skeleton of a trace: which item was attempted, and the
    waits, whatever the outcome of each attempt. *)
Inductive Beat :=
| BSend (j : Job)
| BWait (ms : Z)
| BOther.

Definition beat_of (e : Event) : Beat :=
  match e with
  | EvAttempt j _ => BSend j
  | EvDelay ms => BWait ms
  | _ => BOther
  end.

(** Items one after the other, with one fixed wait between two
    consecutive items and none after the last. *)
Fixpoint spaced (items : list Job) : list Beat :=
  match items with
  | [] => []
  | [j] => [BSend j]
  | j :: rest => BSend j :: BWait EMAIL_INTERVAL_MS :: spaced rest
  end.

Definition discovered (evs : list Event) : bool :=
  existsb (fun e => match e with EvDiscover => true | _ => false end) evs.

Definition attempts (evs : list Event) : nat :=
  length (filter (fun e => match e with EvAttempt _ _ => true | _ => false end) evs).

(** Both dedup sets of [d2] extend those of [d1] by appending. *)
Definition db_extends (d1 d2 : JobsDb) : Prop :=
  exists e c, sentEmails d2 = (sentEmails d1 ++ e)%list
              /\ sentCompanies d2 = (sentCompanies d1 ++ c)%list.

(** The score as the claim words it: the skill text is the plain
    concatenation of role, snippet and requirements. *)
Definition scoreJob_claim (job : Job) (profile : Profile) : nat :=
  let lc o := toLowerCase (or_default o EmptyString) in
  let wt := lc (workType job) in
  let ct := lc (companyType job) in
  let fs := lc (fundingStage job) in
  let text := toLowerCase (or_default (role job) EmptyString
                           ++ or_default (snippet job) EmptyString
                           ++ or_default (requirements job) EmptyString) in
  (if String.eqb wt "remote" then 100 else if String.eqb wt "hybrid" then 50
   else if String.eqb wt "onsite" then 10 else 0)
  + (if includes ct "foreign" || includes ct "international" then 40 else 0)
  + (if includes ct "startup" then 30 else 0)
  + (if isFamous job then 25 else 0)
  + 15 * length (filter (fun sk => includes text (toLowerCase sk)) (allSkills profile))
  + (if includes fs "series b" || includes fs "series c" then 20
     else if includes fs "series a" then 15 else 0).

(** The corrected reading: the skill text joins the three fields with
    single spaces. *)
Definition scoreJob_amended (job : Job) (profile : Profile) : nat :=
  let lc o := toLowerCase (or_default o EmptyString) in
  let wt := lc (workType job) in
  let ct := lc (companyType job) in
  let fs := lc (fundingStage job) in
  let text := toLowerCase (or_default (role job) EmptyString ++ " "
                           ++ or_default (snippet job) EmptyString ++ " "
                           ++ or_default (requirements job) EmptyString) in
  (if String.eqb wt "remote" then 100 else if String.eqb wt "hybrid" then 50
   else if String.eqb wt "onsite" then 10 else 0)
  + (if includes ct "foreign" || includes ct "international" then 40 else 0)
  + (if includes ct "startup" then 30 else 0)
  + (if isFamous job then 25 else 0)
  + 15 * length (filter (fun sk => includes text (toLowerCase sk)) (allSkills profile))
  + (if includes fs "series b" || includes fs "series c" then 20
     else if includes fs "series a" then 15 else 0).

Definition go_lang_job : Job :=
  mkJob "GoCo" (Some "Go") (Some "lang") None None None false None
        None None None None 0.

Definition golang_profile : Profile :=
  mkProfile None (Some (mkSkills ["golang"] [] [] [] [])).

Definition answer_with (js : list Job) : option GeminiAnswer :=
  Some (mkAnswer (Some (mkProfile (Some "Dev") None)) (Some js)).

(** Thirteen listings of the same, never contacted, company. *)
Definition acme_batch : list Job := repeat job_a 13.

(** A listing that names neither an HR nor a decision-maker address. *)
Definition anon_job : Job :=
  mkJob "Zeta" (Some "Backend Engineer") (Some "Build APIs") None (Some "remote")
        None false None None None (Some "Application") (Some "Hello") 0.

(** [getJobStats]: total, sent and failed counts of the history. *)
Definition is_status (s : Status) (r : HistoryRecord) : bool :=
  match status r, s with
  | sent, sent | failed, failed => true
  | _, _ => false
  end.

Definition getJobStats (st : Store) : nat * nat * nat :=
  let db := loadJobsDb st in
  (length (jobs db), length (filter (is_status sent) (jobs db)),
   length (filter (is_status failed) (jobs db))).

(** The history record written for one attempt of a run. *)
Definition outcome_record (j : Job) (r : option string) : HistoryRecord :=
  match r with
  | None => mkRecord j sent None
  | Some m => mkRecord j failed (Some m)
  end.

Definition attempt_records (evs : list Event) : list HistoryRecord :=
  flat_map (fun e => match e with
                     | EvAttempt j r => [outcome_record j r]
                     | _ => []
                     end) evs.

Definition sent_count (evs : list Event) : nat :=
  length (filter (fun e => match e with EvAttempt _ None => true | _ => false end) evs).

(** [a] may precede [b] in the ranking. *)
Definition ranked_before (a b : Job) : Prop := score b <= score a.

(* ================================================================== *)
(** * Properties *)

(** ** Frame lemmas of the elementary operations *)

Lemma loadQueue_markJobSent j st : loadQueue (markJobSent j st) = loadQueue st.
Proof. reflexivity. Qed.

Lemma loadQueue_markJobFailed j m st : loadQueue (markJobFailed j m st) = loadQueue st.
Proof. reflexivity. Qed.

Lemma loadJobsDb_saveQueue q st : loadJobsDb (saveQueue q st) = loadJobsDb st.
Proof. reflexivity. Qed.

Lemma loadQueue_saveQueue q st : loadQueue (saveQueue q st) = q.
Proof. reflexivity. Qed.

Lemma loadJobsDb_saveJobsDb d st : loadJobsDb (saveJobsDb d st) = d.
Proof. reflexivity. Qed.

Lemma loadQueue_addJobsToQueue js st :
  loadQueue (addJobsToQueue js st) = (loadQueue st ++ js)%list.
Proof. reflexivity. Qed.

Lemma loadQueue_remove0 st :
  loadQueue (fst (removeJobFromQueue 0 st)) = tl (loadQueue st).
Proof.
  unfold removeJobFromQueue.
  destruct (loadQueue st) as [|x q] eqn:E; cbn -[loadQueue]; [exact E | reflexivity].
Qed.

Lemma loadJobsDb_remove i st :
  loadJobsDb (fst (removeJobFromQueue i st)) = loadJobsDb st.
Proof.
  unfold removeJobFromQueue. destruct (Nat.ltb _ _); reflexivity.
Qed.

Lemma filterNewJobs_spec jobs st :
  filterNewJobs jobs st
  = filter (fun j => negb (hrEmailSent j st) && negb (isCompanySent (company j) st)) jobs.
Proof.
  induction jobs as [|j rest IH]; simpl; [reflexivity|].
  rewrite IH. destruct (hrEmailSent j st), (isCompanySent (company j) st); reflexivity.
Qed.

(** ** The timing skeleton of one queue run *)

Lemma processLoop_beats sm nm items : forall i st,
  map beat_of (snd (fst (processLoop sm nm i (i + length items) items st)))
  = spaced items.
Proof.
  induction items as [|j rest IH]; intros i st; simpl; [reflexivity|].
  destruct (processOne sm nm j st) as [st1 r].
  specialize (IH (S i) st1).
  replace (S i + length rest) with (i + S (length rest)) in IH by lia.
  destruct (processLoop sm nm (S i) (i + S (length rest)) rest st1)
    as [[st2 evs] c]; simpl in *.
  destruct rest as [|j' rest'].
  - simpl in *. replace (i + 1 - 1) with i by lia.
    rewrite Nat.ltb_irrefl. simpl. now rewrite IH.
  - simpl in *. replace (i + S (S (length rest')) - 1) with (S (i + length rest')) by lia.
    assert (Hlt : Nat.ltb i (S (i + length rest')) = true) by (apply Nat.ltb_lt; lia).
    rewrite Hlt. simpl. now rewrite IH.
Qed.

Lemma processJobQueue_beats sm nm all st :
  map beat_of (snd (fst (processJobQueue sm nm all st)))
  = spaced (jobsToProcessOf all (loadQueue st)).
Proof.
  unfold processJobQueue, getQueueSize.
  destruct (loadQueue st) as [|x q] eqn:E; simpl.
  - unfold jobsToProcessOf. destruct all; reflexivity.
  - apply (processLoop_beats sm nm _ 0).
Qed.

(** ** Claims about one queue run *)

(** C3: processing one listing. On success a [sent] record is appended and
    both recipient addresses (each when present, lower-cased) and the
    lower-cased company are pushed onto the dedup arrays; on failure (empty
    body, no recipient, or a rejecting transport, whose message is kept) a
    [failed] record with the message is appended, only the company is
    pushed, and the queue document is left as it was. *)
Theorem processOne_records sm nm job st :
  let db := loadJobsDb st in
  let res := processOne sm nm job st in
  snd res = (if String.eqb (jobBody job) EmptyString
             then Some "No email body generated"
             else sendEmail sm (jobRecipients job) (jobSubject job) (jobBody job) nm)
  /\ match snd res with
     | None =>
         loadJobsDb (fst res)
         = mkDb (jobs db ++ [mkRecord job sent None])
                (sentEmails db ++ push_if (hrEmail job)
                   ++ push_if (decisionMakerEmail job))
                (sentCompanies db ++ [toLowerCase (company job)])
     | Some msg =>
         loadJobsDb (fst res)
         = mkDb (jobs db ++ [mkRecord job failed (Some msg)])
                (sentEmails db)
                (sentCompanies db ++ [toLowerCase (company job)])
         /\ loadQueue (fst res) = loadQueue st
     end.
Proof.
  cbv zeta. unfold processOne.
  destruct (String.eqb (jobBody job) EmptyString).
  - split; [reflexivity|]. split; reflexivity.
  - destruct (sendEmail sm (jobRecipients job) (jobSubject job) (jobBody job) nm)
      as [msg|] eqn:Hs; cbn [fst snd].
    + split; [reflexivity|]. split; reflexivity.
    + split; [reflexivity|]. now rewrite loadJobsDb_remove.
Qed.

(** C5: whatever the outcome of each send, one run attempts its items in
    queue order with one wait of [EMAIL_INTERVAL_MS] (five minutes)
    between two consecutive items and none after the last; the items are
    the whole queue in Unbounded mode and its first 12 in Bounded mode. *)
Theorem processJobQueue_fixed_spacing sm nm clearAll st :
  map beat_of (snd (fst (processJobQueue sm nm clearAll st)))
  = spaced (if clearAll then loadQueue st
            else firstn MAX_EMAILS_PER_RUN (loadQueue st))
  /\ EMAIL_INTERVAL_MS = (5 * 60 * 1000)%Z.
Proof.
  split; [|reflexivity].
  rewrite processJobQueue_beats. reflexivity.
Qed.

(** C8: a listing with no recipient address is not filtered out for that
    reason, and processing it takes the failure path: [sendEmail] rejects
    with [No valid recipients] (or the empty-body check fires first). *)
Theorem no_recipient_listing_fails sm nm job st :
  truthy (hrEmail job) = false ->
  truthy (decisionMakerEmail job) = false ->
  filterNewJobs [job] st = (if isCompanySent (company job) st then [] else [job])
  /\ sendEmail sm (jobRecipients job) (jobSubject job) (jobBody job) nm
     = Some "No valid recipients"
  /\ processOne sm nm job st
     = (let msg := if String.eqb (jobBody job) EmptyString
                   then "No email body generated" else "No valid recipients" in
        (markJobFailed job msg st, Some msg)).
Proof.
  intros Hhr Hdm.
  assert (Hs : sendEmail sm (jobRecipients job) (jobSubject job) (jobBody job) nm
               = Some "No valid recipients").
  { unfold sendEmail, jobRecipients. rewrite Hdm. simpl.
    destruct (hrEmail job) as [e|]; simpl in *; [rewrite Hhr|]; reflexivity. }
  assert (Hf : hrEmailSent job st = false).
  { unfold hrEmailSent. destruct (hrEmail job); [rewrite Hhr|]; reflexivity. }
  split; [|split; [exact Hs|]].
  - simpl. rewrite Hf. destruct (isCompanySent (company job) st); reflexivity.
  - unfold processOne. destruct (String.eqb (jobBody job) EmptyString); [reflexivity|].
    rewrite Hs. reflexivity.
Qed.

Lemma no_recipient_listing_fails_witness :
  truthy (hrEmail anon_job) = false
  /\ truthy (decisionMakerEmail anon_job) = false
  /\ filterNewJobs [anon_job] (store_of []) = [anon_job]
  /\ snd (processOne smtp_ok "Dev" anon_job (store_of [])) = Some "No valid recipients".
Proof.
  destruct (no_recipient_listing_fails smtp_ok "Dev" anon_job (store_of [])
              eq_refl eq_refl) as [H1 [_ H3]].
  split; [reflexivity|]. split; [reflexivity|].
  split; [exact H1|]. rewrite H3. reflexivity.
Defined.

(** C9: on an empty queue the processor returns 0, emits nothing and
    leaves both documents untouched. *)
Theorem processJobQueue_empty_noop sm nm clearAll st :
  loadQueue st = [] -> processJobQueue sm nm clearAll st = (st, [], 0).
Proof.
  intros H. unfold processJobQueue, getQueueSize. rewrite H. reflexivity.
Qed.

Lemma processJobQueue_empty_noop_witness :
  loadQueue (mkStore Missing Missing) = []
  /\ processJobQueue smtp_ok "Dev" false (mkStore Missing Missing)
     = (mkStore Missing Missing, [], 0).
Proof.
  split; [reflexivity|]. apply processJobQueue_empty_noop. reflexivity.
Defined.

(** C10: an absent or unparseable backing file loads as the empty
    document. *)
Theorem load_defaults st :
  (jobs_file st = Missing \/ jobs_file st = Garbage ->
   loadJobsDb st = {| jobs := []; sentEmails := []; sentCompanies := [] |})
  /\ (queue_file st = Missing \/ queue_file st = Garbage -> loadQueue st = []).
Proof.
  unfold loadJobsDb, loadQueue.
  split; intros [H|H]; rewrite H; reflexivity.
Qed.

Lemma load_defaults_witness :
  loadJobsDb (mkStore Garbage Missing) = mkDb [] [] []
  /\ loadQueue (mkStore Garbage Missing) = [].
Proof.
  destruct (load_defaults (mkStore Garbage Missing)) as [H1 H2].
  split; [apply H1; right; reflexivity | apply H2; left; reflexivity].
Defined.

(** C1: a Bounded run over [job_a; job_b] where the send to [job_a] is
    rejected and the send to [job_b] accepted: the success path removes
    index 0 of the persisted queue, which at that point still holds the
    failed [job_a]; the queue ends as [job_b], the listing that was sent. *)
Theorem queue_scenario_failed_then_sent :
  let '(st, evs, sentCount) :=
    processJobQueue smtp_rejects_a "Dev" false (store_of [job_a; job_b]) in
  evs = [EvAttempt job_a (Some "550 mailbox unavailable");
         EvDelay EMAIL_INTERVAL_MS; EvAttempt job_b None]
  /\ sentCount = 1
  /\ map (fun r => (company (rec_job r), status r)) (jobs (loadJobsDb st))
     = [("Acme", failed); ("Beta", sent)]
  /\ loadQueue st = [job_b].
Proof.
  vm_compute. split; [reflexivity|]. split; [reflexivity|].
  split; reflexivity.
Qed.

(** ** Ranking *)

Lemma fold_count (f : string -> bool) l k :
  fold_left (fun n s => if f s then S n else n) l k = k + length (filter f l).
Proof.
  revert k; induction l as [|x l IH]; intros k; simpl; [lia|].
  destruct (f x); rewrite IH; simpl; lia.
Qed.

(** C4 (counterexample): the skill text is not the plain concatenation of
    the fields: with role [Go] and snippet [lang] the skill [golang]
    is found in [golang] but not in the text [go lang ] the code
    scans. *)
Lemma scoreJob_skill_text_counterexample :
  scoreJob go_lang_job golang_profile = 0
  /\ scoreJob_claim go_lang_job golang_profile = 15.
Proof. split; vm_compute; reflexivity. Qed.

Lemma tmpl_present o s : o = Some s -> tmpl o = or_default o EmptyString.
Proof.
  intros ->. simpl. destruct (String.eqb s EmptyString) eqn:E; [|reflexivity].
  now apply String.eqb_eq in E.
Qed.

(** C4 (amended): for a listing whose role and snippet are present, the
    score is the sum of the work-type weight, the two independent
    company-type bonuses, the fame bonus, 15 per skill entry found in the
    lower-cased text [role + ' ' + snippet + ' ' + (requirements or
    empty)] and the exclusive funding bonus, every text compared after
    lower-casing. *)
Theorem scoreJob_components job profile r sn :
  role job = Some r -> snippet job = Some sn ->
  scoreJob job profile = scoreJob_amended job profile.
Proof.
  intros Hr Hs.
  unfold scoreJob, scoreJob_amended. cbv zeta.
  rewrite (tmpl_present _ _ Hr), (tmpl_present _ _ Hs).
  rewrite (fold_count (fun sk => includes _ (toLowerCase sk))).
  repeat match goal with
         | |- context [if ?b then _ else _] => destruct b
         end; lia.
Qed.

Lemma scoreJob_components_witness :
  scoreJob go_lang_job golang_profile = scoreJob_amended go_lang_job golang_profile.
Proof. exact (scoreJob_components go_lang_job golang_profile "Go" "lang" eq_refl eq_refl). Defined.

(** ** Monotonicity of the dedup arrays *)

Lemma db_extends_refl d : db_extends d d.
Proof. exists [], []. now rewrite !app_nil_r. Qed.

Lemma db_extends_trans d1 d2 d3 :
  db_extends d1 d2 -> db_extends d2 d3 -> db_extends d1 d3.
Proof.
  intros (e1 & c1 & He1 & Hc1) (e2 & c2 & He2 & Hc2).
  exists (e1 ++ e2)%list, (c1 ++ c2)%list.
  rewrite He2, Hc2, He1, Hc1, <- !app_assoc. split; reflexivity.
Qed.

Create HintDb dedup.
#[local] Hint Resolve db_extends_refl : dedup.

Lemma extends_markJobSent j st :
  db_extends (loadJobsDb st) (loadJobsDb (markJobSent j st)).
Proof. eexists _, _. split; reflexivity. Qed.

Lemma extends_markJobFailed j m st :
  db_extends (loadJobsDb st) (loadJobsDb (markJobFailed j m st)).
Proof. exists [], [toLowerCase (company j)]. rewrite app_nil_r. split; reflexivity. Qed.

#[local] Hint Resolve extends_markJobSent extends_markJobFailed : dedup.

Lemma extends_processOne sm nm j st :
  db_extends (loadJobsDb st) (loadJobsDb (fst (processOne sm nm j st))).
Proof.
  unfold processOne. cbv zeta.
  destruct (String.eqb (jobBody j) EmptyString); [apply extends_markJobFailed|].
  destruct (sendEmail sm (jobRecipients j) (jobSubject j) (jobBody j) nm);
    cbn [fst]; [apply extends_markJobFailed|].
  rewrite loadJobsDb_remove. apply extends_markJobSent.
Qed.

Lemma extends_processLoop sm nm items : forall i len st,
  db_extends (loadJobsDb st) (loadJobsDb (fst (fst (processLoop sm nm i len items st)))).
Proof.
  induction items as [|j rest IH]; intros i len st; simpl; [auto with dedup|].
  pose proof (extends_processOne sm nm j st) as H1.
  destruct (processOne sm nm j st) as [st1 r].
  specialize (IH (S i) len st1).
  destruct (processLoop sm nm (S i) len rest st1) as [[st2 evs] c].
  simpl in *. eapply db_extends_trans; eassumption.
Qed.

Lemma extends_processJobQueue sm nm all st :
  db_extends (loadJobsDb st) (loadJobsDb (fst (fst (processJobQueue sm nm all st)))).
Proof.
  unfold processJobQueue.
  destruct (Nat.eqb (getQueueSize st) 0); [simpl; auto with dedup|].
  apply extends_processLoop.
Qed.

Lemma extends_addJobsToQueue js st :
  db_extends (loadJobsDb st) (loadJobsDb (addJobsToQueue js st)).
Proof. apply db_extends_refl. Qed.

#[local] Hint Resolve extends_processJobQueue extends_addJobsToQueue : dedup.

Ltac reduce := cbv beta iota zeta; cbn [fst snd negb].

Lemma extends_cycle sm dflt up ans st :
  db_extends (loadJobsDb st) (loadJobsDb (fst (runJobApplicationCycle sm dflt up ans st))).
Proof.
  unfold runJobApplicationCycle.
  destruct up; reduce; [|auto with dedup].
  destruct (analyzeAndFindJobs ans) as [[p|] js]; reduce; [|auto with dedup].
  destruct (Nat.ltb 0 (getQueueSize st)); reduce.
  - pose proof (extends_processJobQueue sm (or_default (name p) dflt) false st) as H1.
    destruct (processJobQueue sm (or_default (name p) dflt) false st)
      as [[st1 evs1] c]; reduce.
    destruct (Nat.leb MAX_EMAILS_PER_RUN c); reduce; [exact H1|].
    destruct js as [|x js']; reduce; [exact H1|].
    destruct (filterNewJobs (x :: js') st1) as [|y ys]; reduce; [exact H1|].
    pose proof (extends_processJobQueue sm (or_default (name p) dflt) false
                  (addJobsToQueue (y :: ys) st1)) as H2.
    destruct (processJobQueue sm (or_default (name p) dflt) false
                (addJobsToQueue (y :: ys) st1)) as [[st3 evs2] c2]; reduce.
    eapply db_extends_trans; [exact H1|]. exact H2.
  - destruct js as [|x js']; reduce; [auto with dedup|].
    destruct (filterNewJobs (x :: js') st) as [|y ys]; reduce; [auto with dedup|].
    pose proof (extends_processJobQueue sm (or_default (name p) dflt) false
                  (addJobsToQueue (y :: ys) st)) as H2.
    destruct (processJobQueue sm (or_default (name p) dflt) false
                (addJobsToQueue (y :: ys) st)) as [[st3 evs2] c2]; reduce.
    exact H2.
Qed.

Lemma extends_startup sm dflt up ans st :
  db_extends (loadJobsDb st) (loadJobsDb (fst (initialStartupRun sm dflt up ans st))).
Proof.
  unfold initialStartupRun.
  destruct up; reduce; [|auto with dedup].
  destruct (analyzeAndFindJobs ans) as [[p|] js]; reduce; [|auto with dedup].
  set (nm := or_default (name p) dflt).
  assert (H1 : db_extends (loadJobsDb st)
                 (loadJobsDb (fst (if Nat.ltb 0 (getQueueSize st)
                                   then let '(st', evs, _) := processJobQueue sm nm true st in
                                        (st', evs)
                                   else (st, []))))).
  { destruct (Nat.ltb 0 (getQueueSize st)); [|apply db_extends_refl].
    pose proof (extends_processJobQueue sm nm true st) as H.
    destruct (processJobQueue sm nm true st) as [[st' evs] c]. exact H. }
  destruct (if Nat.ltb 0 (getQueueSize st)
            then let '(st', evs, _) := processJobQueue sm nm true st in (st', evs)
            else (st, [])) as [st1 evs1]; reduce.
  destruct js as [|x js']; reduce; [exact H1|].
  destruct (filterNewJobs (x :: js') st1) as [|y ys]; reduce; [exact H1|].
  pose proof (extends_processJobQueue sm nm true (addJobsToQueue (y :: ys) st1)) as H2.
  destruct (processJobQueue sm nm true (addJobsToQueue (y :: ys) st1))
    as [[st3 evs2] c2]; reduce.
  eapply db_extends_trans; [exact H1|]. exact H2.
Qed.

Lemma extends_verifySetupDb st :
  db_extends (loadJobsDb st) (loadJobsDb (verifySetupDb st)).
Proof.
  unfold verifySetupDb.
  destruct (jobs_file st) eqn:E; try apply db_extends_refl.
  rewrite loadJobsDb_saveJobsDb. unfold loadJobsDb. rewrite E. apply db_extends_refl.
Qed.

Lemma extends_SysStep st st' :
  SysStep st st' -> db_extends (loadJobsDb st) (loadJobsDb st').
Proof.
  intros []; auto using extends_markJobSent, extends_markJobFailed,
    extends_addJobsToQueue, extends_processJobQueue, extends_cycle,
    extends_startup, extends_verifySetupDb.
  rewrite loadJobsDb_remove. apply db_extends_refl.
Qed.

Lemma extends_SysSteps st st' :
  SysSteps st st' -> db_extends (loadJobsDb st) (loadJobsDb st').
Proof.
  induction 1 as [st|st1 st2 st3 H _ IH]; [apply db_extends_refl|].
  eapply db_extends_trans; [apply extends_SysStep; exact H | exact IH].
Qed.

Lemma isCompanySent_extends c st st' :
  db_extends (loadJobsDb st) (loadJobsDb st') ->
  isCompanySent c st = true -> isCompanySent c st' = true.
Proof.
  unfold isCompanySent. intros (e & cs & _ & Hc) H.
  rewrite Hc, existsb_app, H. reflexivity.
Qed.

Lemma isEmailSent_extends m st st' :
  db_extends (loadJobsDb st) (loadJobsDb st') ->
  isEmailSent m st = true -> isEmailSent m st' = true.
Proof.
  unfold isEmailSent. intros (e & cs & He & _) H.
  rewrite He, existsb_app, H. reflexivity.
Qed.

Lemma isCompanySent_after_record j st :
  isCompanySent (company j) (markJobSent j st) = true
  /\ forall msg, isCompanySent (company j) (markJobFailed j msg st) = true.
Proof.
  unfold isCompanySent; split; [|intros msg]; cbn;
    rewrite existsb_app; cbn; rewrite String.eqb_refl, orb_true_r; reflexivity.
Qed.

(** C6: every operation of the program that writes the store only appends
    to [sentEmails] and [sentCompanies]; hence [isCompanySent] and
    [isEmailSent] never turn false again, and once a [sent] or [failed]
    record for a listing is written its company stays contacted through
    any later sequence of operations and cycles. *)
Theorem dedup_append_only :
  (forall st st', SysSteps st st' ->
     db_extends (loadJobsDb st) (loadJobsDb st')
     /\ (forall c, isCompanySent c st = true -> isCompanySent c st' = true)
     /\ (forall m, isEmailSent m st = true -> isEmailSent m st' = true))
  /\ (forall j st st', SysSteps (markJobSent j st) st' ->
        isCompanySent (company j) st' = true)
  /\ (forall j msg st st', SysSteps (markJobFailed j msg st) st' ->
        isCompanySent (company j) st' = true).
Proof.
  split; [|split].
  - intros st st' H. pose proof (extends_SysSteps st st' H) as E.
    split; [exact E|]. split; intros x;
      [apply isCompanySent_extends | apply isEmailSent_extends]; exact E.
  - intros j st st' H. eapply isCompanySent_extends; [apply extends_SysSteps, H|].
    apply isCompanySent_after_record.
  - intros j msg st st' H. eapply isCompanySent_extends; [apply extends_SysSteps, H|].
    apply isCompanySent_after_record.
Qed.

Lemma dedup_append_only_witness :
  SysSteps (markJobFailed job_a "550" (store_of []))
           (fst (runJobApplicationCycle smtp_ok "Dev" true (answer_with [job_b])
                   (markJobFailed job_a "550" (store_of []))))
  /\ isCompanySent "Acme"
       (fst (runJobApplicationCycle smtp_ok "Dev" true (answer_with [job_b])
               (markJobFailed job_a "550" (store_of [])))) = true.
Proof.
  assert (H : SysSteps (markJobFailed job_a "550" (store_of []))
           (fst (runJobApplicationCycle smtp_ok "Dev" true (answer_with [job_b])
                   (markJobFailed job_a "550" (store_of []))))).
  { eapply steps_cons; [apply step_cycle | apply steps_refl]. }
  split; [exact H|].
  destruct dedup_append_only as [_ [_ Hf]].
  exact (Hf job_a "550" (store_of []) _ H).
Defined.

(** ** Same-company listings within one discovery batch *)

(** C7 (counterexample): thirteen listings of the never contacted company
    [Acme] all pass the filter and are enqueued, but the cycle's Bounded
    run attempts only twelve of them; one is still queued afterwards. *)
Lemma same_company_batch_not_all_processed :
  let ranked := snd (analyzeAndFindJobs (answer_with acme_batch)) in
  let '(st, evs) :=
    runJobApplicationCycle smtp_ok "Me" true (answer_with acme_batch) (store_of []) in
  filterNewJobs ranked (store_of []) = ranked
  /\ length ranked = 13
  /\ attempts evs = 12
  /\ length (loadQueue st) = 1.
Proof.
  vm_compute. split; [reflexivity|]. split; [reflexivity|].
  split; reflexivity.
Qed.

(** C7 (amended): the filter tests each listing only against the
    persisted history, so every listing of a not yet contacted company
    whose HR address is not yet contacted passes, however many the batch
    holds; all survivors are appended to the queue, and the following
    Bounded run attempts exactly the first 12 queue entries, with no
    dedup re-check at send time. *)
Theorem same_company_batch_all_enqueued sm nm jobs st c :
  isCompanySent c st = false ->
  (forall j, In j jobs -> company j = c -> hrEmailSent j st = false) ->
  filter (fun j => String.eqb (company j) c) (filterNewJobs jobs st)
    = filter (fun j => String.eqb (company j) c) jobs
  /\ loadQueue (addJobsToQueue (filterNewJobs jobs st) st)
     = (loadQueue st ++ filterNewJobs jobs st)%list
  /\ map beat_of (snd (fst (processJobQueue sm nm false
                              (addJobsToQueue (filterNewJobs jobs st) st))))
     = spaced (firstn MAX_EMAILS_PER_RUN (loadQueue st ++ filterNewJobs jobs st)).
Proof.
  intros Hc Hhr. split; [|split; [reflexivity|]].
  - rewrite filterNewJobs_spec.
    induction jobs as [|j rest IH]; [reflexivity|].
    cbn [filter].
    destruct (String.eqb (company j) c) eqn:Ej.
    + apply String.eqb_eq in Ej.
      rewrite (Hhr j (or_introl eq_refl) Ej), Ej, Hc. cbn.
      rewrite <- Ej, String.eqb_refl, Ej. f_equal.
      apply IH. intros j' Hin. apply Hhr. right. exact Hin.
    + destruct (negb (hrEmailSent j st) && negb (isCompanySent (company j) st));
        cbn; [rewrite Ej|];
        apply IH; intros j' Hin; apply Hhr; right; exact Hin.
  - rewrite processJobQueue_beats, loadQueue_addJobsToQueue. reflexivity.
Qed.

Lemma same_company_batch_all_enqueued_witness :
  isCompanySent "Acme" (store_of []) = false
  /\ filter (fun j => String.eqb (company j) "Acme") (filterNewJobs acme_batch (store_of []))
     = acme_batch.
Proof.
  split; [reflexivity|].
  destruct (same_company_batch_all_enqueued smtp_ok "Dev" acme_batch (store_of []) "Acme"
              eq_refl) as [H _].
  - intros j _ _. unfold hrEmailSent.
    destruct (hrEmail j); [destruct (truthy _)|]; reflexivity.
  - rewrite H. reflexivity.
Defined.

(** ** Ranking order *)

Lemma insert_by_score_perm x l : Permutation (x :: l) (insert_by_score x l).
Proof.
  induction l as [|y l IH]; simpl; [reflexivity|].
  destruct (Nat.ltb (score x) (score y)); [|reflexivity].
  rewrite perm_swap. now apply perm_skip.
Qed.

Lemma insert_by_score_hd y x l :
  HdRel ranked_before y l -> ranked_before y x -> HdRel ranked_before y (insert_by_score x l).
Proof.
  intros Hl Hx. destruct l as [|z l]; simpl; [now constructor|].
  destruct (Nat.ltb (score x) (score z)); constructor; [now inversion Hl | exact Hx].
Qed.

Lemma insert_by_score_sorted x l :
  Sorted ranked_before l -> Sorted ranked_before (insert_by_score x l).
Proof.
  induction l as [|y l IH]; intros Hs; simpl; [now repeat constructor|].
  inversion Hs as [|? ? Hl Hhd]; subst.
  destruct (Nat.ltb (score x) (score y)) eqn:E.
  - apply Nat.ltb_lt in E. constructor; [now apply IH|].
    apply insert_by_score_hd; [exact Hhd | unfold ranked_before; lia].
  - apply Nat.ltb_ge in E. constructor; [exact Hs | constructor; exact E].
Qed.

Lemma sortByScore_spec l :
  Sorted ranked_before (sortByScore l) /\ Permutation l (sortByScore l).
Proof.
  induction l as [|x l [IHs IHp]]; simpl; [split; constructor|].
  split; [now apply insert_by_score_sorted|].
  rewrite <- insert_by_score_perm. now apply perm_skip.
Qed.

(** ** The Scheduled cycle *)

(** C2 (counterexample): with twelve queued listings that all send, the
    Bounded run exhausts its bound and the cycle stops, yet discovery has
    already been called: the cycle uploads the resume and queries
    discovery before it looks at the queue. *)
Lemma cycle_discovers_before_queue :
  let st0 := store_of (repeat job_b 12) in
  let '(_, _, sentCount) := processJobQueue smtp_ok "Dev" false st0 in
  let '(_, evs) := runJobApplicationCycle smtp_ok "Me" true (answer_with [job_a]) st0 in
  sentCount = MAX_EMAILS_PER_RUN
  /\ firstn 2 evs = [EvUpload; EvDiscover]
  /\ discovered evs = true.
Proof.
  vm_compute. split; [reflexivity|]. split; reflexivity.
Qed.

(** C2 (amended): a Scheduled cycle first uploads the resume and, only
    when the upload succeeds, calls discovery, which returns its listings
    ranked by score; it stops there, writing nothing, when the upload
    fails or discovery yields no profile. Then, if the queue is non-empty,
    it runs the Bounded processor and stops when that run reports at
    least 12 successful sends. Otherwise it filters the ranked listings
    against the history as it then stands (HR email or company already
    contacted); it stops when no listing survives, and else appends the
    survivors to the queue and runs the Bounded processor again. *)
Theorem cycle_orchestration sm dflt up answer st :
  let cyc := runJobApplicationCycle sm dflt up answer st in
  let evs0 := [EvUpload; EvDiscover] in
  (up = false -> cyc = (st, [EvUpload]))
  /\ (up = true -> fst (analyzeAndFindJobs answer) = None -> cyc = (st, evs0))
  /\ (forall p found, up = true -> analyzeAndFindJobs answer = (Some p, found) ->
      let nm := or_default (name p) dflt in
      Sorted ranked_before found
      /\ firstn 2 (snd cyc) = evs0
      /\ (0 < getQueueSize st ->
          let '(st1, evs1, sentCount) := processJobQueue sm nm false st in
          (MAX_EMAILS_PER_RUN <= sentCount -> cyc = (st1, evs0 ++ evs1))
          /\ (sentCount < MAX_EMAILS_PER_RUN ->
              let newJobs := filterNewJobs found st1 in
              (newJobs = [] -> cyc = (st1, evs0 ++ evs1))
              /\ (newJobs <> [] ->
                  let st2 := addJobsToQueue newJobs st1 in
                  let '(st3, evs2, _) := processJobQueue sm nm false st2 in
                  cyc = (st3, evs0 ++ evs1 ++ [EvEnqueue newJobs] ++ evs2))))
      /\ (getQueueSize st = 0 ->
          let newJobs := filterNewJobs found st in
          (newJobs = [] -> cyc = (st, evs0))
          /\ (newJobs <> [] ->
              let st2 := addJobsToQueue newJobs st in
              let '(st3, evs2, _) := processJobQueue sm nm false st2 in
              cyc = (st3, evs0 ++ [EvEnqueue newJobs] ++ evs2))))%list.
Proof.
  cbv zeta. split; [|split].
  - intros ->. reflexivity.
  - intros -> Hp. unfold runJobApplicationCycle. reduce.
    destruct (analyzeAndFindJobs answer) as [[p|] found]; cbn in Hp;
      [discriminate|reflexivity].
  - intros p found -> Ha.
    assert (Hs : Sorted ranked_before found).
    { destruct answer as [r|]; cbn in Ha; [|discriminate].
      injection Ha as _ <-. apply sortByScore_spec. }
    unfold runJobApplicationCycle. rewrite Ha. reduce.
    split; [exact Hs|]. split; [|split].
    + destruct (Nat.ltb 0 (getQueueSize st)); reduce.
      * destruct (processJobQueue sm (or_default (name p) dflt) false st)
          as [[st1 evs1] c]; reduce.
        destruct (Nat.leb MAX_EMAILS_PER_RUN c); [reflexivity|].
        destruct found as [|x js]; [reflexivity|].
        destruct (filterNewJobs (x :: js) st1); [reflexivity|].
        destruct (processJobQueue _ _ _ _) as [[? ?] ?]; reflexivity.
      * destruct found as [|x js]; [reflexivity|].
        destruct (filterNewJobs (x :: js) st); [reflexivity|].
        destruct (processJobQueue _ _ _ _) as [[? ?] ?]; reflexivity.
    + intros Hq. apply Nat.ltb_lt in Hq. rewrite Hq. reduce.
      destruct (processJobQueue sm (or_default (name p) dflt) false st)
        as [[st1 evs1] c]; reduce.
      split.
      * intros Hc. apply Nat.leb_le in Hc. rewrite Hc. reflexivity.
      * intros Hc. apply Nat.leb_gt in Hc. rewrite Hc.
        destruct found as [|x js]; [split; [reflexivity|now intros []]|].
        destruct (filterNewJobs (x :: js) st1) as [|y ys];
          [split; [reflexivity|now intros []]|].
        split; [discriminate|intros _].
        destruct (processJobQueue _ _ _ _) as [[? ?] ?]; reflexivity.
    + intros Hq. rewrite Hq. change (Nat.ltb 0 0) with false. reduce.
      destruct found as [|x js]; [split; [reflexivity|now intros []]|].
      destruct (filterNewJobs (x :: js) st) as [|y ys];
        [split; [reflexivity|now intros []]|].
      split; [discriminate|intros _].
      destruct (processJobQueue _ _ _ _) as [[? ?] ?]; reflexivity.
Qed.

Lemma cycle_orchestration_witness :
  runJobApplicationCycle smtp_ok "Me" true None (store_of [job_b])
    = (store_of [job_b], [EvUpload; EvDiscover])
  /\ analyzeAndFindJobs (answer_with [job_a])
       = (Some (mkProfile (Some "Dev") None), [with_score job_a 100])
  /\ firstn 2 (snd (runJobApplicationCycle smtp_ok "Me" true (answer_with [job_a])
                      (store_of [job_b]))) = [EvUpload; EvDiscover].
Proof.
  assert (Ha : analyzeAndFindJobs (answer_with [job_a])
               = (Some (mkProfile (Some "Dev") None), [with_score job_a 100]))
    by reflexivity.
  split; [|split; [exact Ha|]].
  - exact (proj1 (proj2 (cycle_orchestration smtp_ok "Me" true None (store_of [job_b])))
                 eq_refl eq_refl).
  - exact (proj1 (proj2 (proj2 (proj2 (cycle_orchestration smtp_ok "Me" true
                   (answer_with [job_a]) (store_of [job_b]))) _ _ eq_refl Ha))).
Defined.

(* ================================================================== *)
(** * Further properties of the code *)

(** ** What one run does to the queue and the history *)

Lemma skipn_tl {A} k (q : list A) : skipn k (tl q) = skipn (S k) q.
Proof. destruct q; simpl; [now rewrite skipn_nil | reflexivity]. Qed.

Lemma processOne_effect sm nm j st :
  let res := processOne sm nm j st in
  loadQueue (fst res)
    = match snd res with None => tl (loadQueue st) | Some _ => loadQueue st end
  /\ jobs (loadJobsDb (fst res))
     = (jobs (loadJobsDb st) ++ [outcome_record j (snd res)])%list.
Proof.
  cbv zeta. unfold processOne. cbv zeta.
  destruct (String.eqb (jobBody j) EmptyString); [split; reflexivity|].
  destruct (sendEmail sm (jobRecipients j) (jobSubject j) (jobBody j) nm);
    cbn [fst snd]; [split; reflexivity|].
  rewrite loadQueue_remove0, loadJobsDb_remove. split; reflexivity.
Qed.

Lemma wait_no_attempt i len :
  attempt_records (if Nat.ltb i (len - 1) then [EvDelay EMAIL_INTERVAL_MS] else []) = []
  /\ sent_count (if Nat.ltb i (len - 1) then [EvDelay EMAIL_INTERVAL_MS] else []) = 0
  /\ attempts (if Nat.ltb i (len - 1) then [EvDelay EMAIL_INTERVAL_MS] else []) = 0.
Proof. destruct (Nat.ltb i (len - 1)); repeat split. Qed.

Lemma processLoop_effect sm nm items : forall i len st,
  let '(st', evs, c) := processLoop sm nm i len items st in
  loadQueue st' = skipn c (loadQueue st)
  /\ jobs (loadJobsDb st') = (jobs (loadJobsDb st) ++ attempt_records evs)%list
  /\ c = sent_count evs
  /\ attempts evs = length items
  /\ c <= length items.
Proof.
  induction items as [|j rest IH]; intros i len st; simpl.
  - rewrite app_nil_r. repeat split; lia.
  - destruct (processOne_effect sm nm j st) as [Hq Hh].
    destruct (processOne sm nm j st) as [st1 r]; cbn [fst snd] in Hq, Hh.
    specialize (IH (S i) len st1).
    destruct (processLoop sm nm (S i) len rest st1) as [[st2 evs] c].
    destruct IH as (Hq2 & Hh2 & Hc & Ha & Hle).
    destruct (wait_no_attempt i len) as (W1 & W2 & W3).
    unfold attempt_records, sent_count, attempts in *.
    destruct r as [m|]; cbn [flat_map filter length];
      rewrite ?flat_map_app, ?filter_app, ?length_app, W1, W2, W3; cbn [app length].
    + rewrite Hq2, Hq, Hh2, Hh, <- app_assoc. repeat split; lia.
    + rewrite Hq2, Hq, skipn_tl, Hh2, Hh, <- app_assoc. repeat split; lia.
Qed.

(** X1: one run of [processJobQueue] removes exactly [sentCount] entries,
    always from the front of the persisted queue, and reports at most as
    many successes as items it attempted (at most 12 in Bounded mode);
    entries beyond the processed slice are never touched. *)
Theorem processJobQueue_queue_after sm nm clearAll st :
  let '(st', _, sentCount) := processJobQueue sm nm clearAll st in
  loadQueue st' = skipn sentCount (loadQueue st)
  /\ sentCount <= length (jobsToProcessOf clearAll (loadQueue st))
  /\ (clearAll = false -> sentCount <= MAX_EMAILS_PER_RUN).
Proof.
  unfold processJobQueue, getQueueSize.
  destruct (loadQueue st) as [|x q] eqn:E; cbn [length Nat.eqb].
  - rewrite E. split; [reflexivity|]. split; [lia|].
    intros _. unfold MAX_EMAILS_PER_RUN. lia.
  - pose proof (processLoop_effect sm nm (jobsToProcessOf clearAll (x :: q)) 0
                  (length (jobsToProcessOf clearAll (x :: q))) st) as H.
    destruct (processLoop _ _ _ _ _ _) as [[st' evs] c].
    destruct H as (Hq & _ & _ & _ & Hle). rewrite E in Hq.
    split; [exact Hq|]. split; [exact Hle|].
    intros ->. unfold jobsToProcessOf in Hle. rewrite length_firstn in Hle. lia.
Qed.

Lemma run_history sm nm clearAll st :
  let '(st', evs, sentCount) := processJobQueue sm nm clearAll st in
  jobs (loadJobsDb st') = (jobs (loadJobsDb st) ++ attempt_records evs)%list
  /\ sentCount = sent_count evs
  /\ attempts evs = length (jobsToProcessOf clearAll (loadQueue st)).
Proof.
  unfold processJobQueue, getQueueSize.
  destruct (loadQueue st) as [|x q] eqn:E; cbn [length Nat.eqb].
  - rewrite app_nil_r. split; [reflexivity|]. split; [reflexivity|].
    destruct clearAll; reflexivity.
  - pose proof (processLoop_effect sm nm (jobsToProcessOf clearAll (x :: q)) 0
                  (length (jobsToProcessOf clearAll (x :: q))) st) as H.
    destruct (processLoop _ _ _ _ _ _) as [[st' evs] c].
    destruct H as (_ & Hh & Hc & Ha & _). repeat split; assumption.
Qed.

(** X2: one run appends to the history exactly one record per attempted
    listing, in attempt order, [sent] for an accepted send and [failed]
    with the error message otherwise; the returned count is the number of
    accepted sends. *)
Theorem processJobQueue_history sm nm clearAll st :
  let '(st', evs, sentCount) := processJobQueue sm nm clearAll st in
  jobs (loadJobsDb st') = (jobs (loadJobsDb st) ++ attempt_records evs)%list
  /\ sentCount = sent_count evs
  /\ attempts evs = length (jobsToProcessOf clearAll (loadQueue st)).
Proof. exact (run_history sm nm clearAll st). Qed.

Lemma attempt_records_counts evs :
  length (filter (is_status sent) (attempt_records evs)) = sent_count evs
  /\ length (filter (is_status failed) (attempt_records evs)) + sent_count evs
     = attempts evs
  /\ length (attempt_records evs) = attempts evs.
Proof.
  unfold attempt_records, sent_count, attempts.
  induction evs as [|e evs (IH1 & IH2 & IH3)]; [repeat split|].
  destruct e as [| |j [m|]| |]; simpl in *; repeat split; lia.
Qed.

(** X3: after one run, [getJobStats] reports [attempts] more records in
    total, [sentCount] more [sent] ones and the remaining attempts as
    [failed] ones. *)
Theorem processJobQueue_stats sm nm clearAll st :
  let '(st', evs, sentCount) := processJobQueue sm nm clearAll st in
  let '(total, nsent, nfailed) := getJobStats st in
  getJobStats st'
  = (total + attempts evs, nsent + sentCount, nfailed + (attempts evs - sentCount)).
Proof.
  pose proof (run_history sm nm clearAll st) as H.
  destruct (processJobQueue sm nm clearAll st) as [[st' evs] c].
  destruct H as (Hh & Hc & _).
  destruct (attempt_records_counts evs) as (C1 & C2 & C3).
  unfold getJobStats. cbv beta iota zeta.
  rewrite Hh, filter_app, filter_app, !length_app, C1, C3. subst c.
  apply (f_equal2 pair); [apply (f_equal2 pair)|]; lia.
Qed.

Lemma processOne_result sm nm j st :
  snd (processOne sm nm j st)
  = if String.eqb (jobBody j) EmptyString then Some "No email body generated"
    else sendEmail sm (jobRecipients j) (jobSubject j) (jobBody j) nm.
Proof.
  unfold processOne. cbv zeta.
  destruct (String.eqb (jobBody j) EmptyString); [reflexivity|].
  destruct (sendEmail sm (jobRecipients j) (jobSubject j) (jobBody j) nm); reflexivity.
Qed.

Lemma processLoop_all_sent sm nm items : forall i len st,
  (forall j, In j items -> jobBody j <> EmptyString
     /\ sendEmail sm (jobRecipients j) (jobSubject j) (jobBody j) nm = None) ->
  snd (processLoop sm nm i len items st) = length items.
Proof.
  induction items as [|j rest IH]; intros i len st Hall; [reflexivity|].
  cbn [processLoop].
  pose proof (processOne_result sm nm j st) as Hr.
  destruct (Hall j (or_introl eq_refl)) as [Hb Hs].
  apply String.eqb_neq in Hb. rewrite Hb, Hs in Hr.
  destruct (processOne sm nm j st) as [st1 r]; cbn [snd] in Hr; subst r.
  specialize (IH (S i) len st1 (fun j' H => Hall j' (or_intror H))).
  destruct (processLoop sm nm (S i) len rest st1) as [[st2 evs] c].
  cbn [snd] in *. cbn [length]. now rewrite IH.
Qed.

(** X4: an Unbounded run in which every queued listing has a body and is
    accepted by [sendEmail] sends them all and leaves the queue empty. *)
Theorem processJobQueue_unbounded_drains sm nm st :
  (forall j, In j (loadQueue st) -> jobBody j <> EmptyString
     /\ sendEmail sm (jobRecipients j) (jobSubject j) (jobBody j) nm = None) ->
  let '(st', _, sentCount) := processJobQueue sm nm true st in
  sentCount = length (loadQueue st) /\ loadQueue st' = [].
Proof.
  intros Hall.
  pose proof (processJobQueue_queue_after sm nm true st) as Hq.
  assert (Hc : snd (processJobQueue sm nm true st) = length (loadQueue st)).
  { unfold processJobQueue, getQueueSize.
    destruct (Nat.eqb (length (loadQueue st)) 0) eqn:E.
    - apply Nat.eqb_eq in E. exact (eq_sym E).
    - apply processLoop_all_sent. exact Hall. }
  destruct (processJobQueue sm nm true st) as [[st' evs] c].
  cbn [snd] in Hc. destruct Hq as [Hq _]. split; [exact Hc|].
  rewrite Hq, Hc. apply skipn_all.
Qed.

Lemma processJobQueue_unbounded_drains_witness :
  let '(st', _, sentCount) :=
    processJobQueue smtp_ok "Dev" true (store_of [job_a; job_b]) in
  sentCount = 2 /\ loadQueue st' = [].
Proof.
  apply processJobQueue_unbounded_drains.
  intros j [<-|[<-|[]]]; (split; [intros E; vm_compute in E; discriminate E | reflexivity]).
Defined.

(** ** Queue and dedup lookups *)

Lemma splice1_spec {A} (l : list A) : forall i,
  splice1 l i = (firstn i l ++ skipn (S i) l)%list.
Proof.
  induction l as [|x l IH]; intros [|i]; simpl; try reflexivity.
  now rewrite IH.
Qed.

(** X5: [removeJobFromQueue i] with [i] inside the queue returns the
    [i]-th listing and rewrites the queue without it, the others in their
    order; with [i] out of range it returns [null] and writes nothing.
    The history is never touched. *)
Theorem removeJobFromQueue_spec i st :
  loadJobsDb (fst (removeJobFromQueue i st)) = loadJobsDb st
  /\ (i < length (loadQueue st) ->
      exists j, snd (removeJobFromQueue i st) = Some j
        /\ nth_error (loadQueue st) i = Some j
        /\ loadQueue (fst (removeJobFromQueue i st))
           = (firstn i (loadQueue st) ++ skipn (S i) (loadQueue st))%list)
  /\ (length (loadQueue st) <= i -> removeJobFromQueue i st = (st, None)).
Proof.
  split; [apply loadJobsDb_remove|]. unfold removeJobFromQueue. split.
  - intros Hi. pose proof Hi as Hi'. apply Nat.ltb_lt in Hi. rewrite Hi.
    destruct (nth_error (loadQueue st) i) as [j|] eqn:E.
    + exists j. cbn [fst snd]. rewrite loadQueue_saveQueue, splice1_spec. auto.
    + apply nth_error_None in E. lia.
  - intros Hi. apply Nat.ltb_ge in Hi. rewrite Hi. reflexivity.
Qed.

Lemma removeJobFromQueue_spec_witness :
  (0 < length (loadQueue (store_of [job_a; job_b])) ->
   exists j, snd (removeJobFromQueue 0 (store_of [job_a; job_b])) = Some j
     /\ nth_error (loadQueue (store_of [job_a; job_b])) 0 = Some j
     /\ loadQueue (fst (removeJobFromQueue 0 (store_of [job_a; job_b])))
        = (firstn 0 (loadQueue (store_of [job_a; job_b]))
           ++ skipn 1 (loadQueue (store_of [job_a; job_b])))%list)
  /\ removeJobFromQueue 5 (store_of [job_a; job_b]) = (store_of [job_a; job_b], None).
Proof.
  destruct (removeJobFromQueue_spec 0 (store_of [job_a; job_b])) as [_ [H _]].
  destruct (removeJobFromQueue_spec 5 (store_of [job_a; job_b])) as [_ [_ H']].
  split; [exact H|]. apply H'. simpl. lia.
Defined.

Lemma existsb_eqb_last x l : existsb (String.eqb x) (l ++ [x])%list = true.
Proof. rewrite existsb_app. simpl. now rewrite String.eqb_refl, !orb_true_r. Qed.

(** X7: after [markJobSent j], both recipient addresses of [j] that are
    present and the company of [j] answer as contacted, whatever their
    letter case, while a failed attempt contacts no address. *)
Theorem markJobSent_contacts j st :
  (forall e, hrEmail j = Some e -> truthy (Some e) = true ->
     isEmailSent e (markJobSent j st) = true)
  /\ (forall e, decisionMakerEmail j = Some e -> truthy (Some e) = true ->
     isEmailSent e (markJobSent j st) = true)
  /\ isCompanySent (company j) (markJobSent j st) = true
  /\ (forall msg e, isEmailSent e (markJobFailed j msg st) = isEmailSent e st).
Proof.
  unfold isEmailSent, isCompanySent, markJobSent. rewrite !loadJobsDb_saveJobsDb.
  cbn [sentEmails sentCompanies].
  split; [|split; [|split]].
  - intros e He Ht. rewrite He. unfold push_if. rewrite Ht.
    rewrite app_assoc, !existsb_app. simpl. rewrite String.eqb_refl.
    now rewrite !orb_true_r.
  - intros e He Ht. rewrite He. unfold push_if at 2. rewrite Ht.
    rewrite app_assoc, existsb_eqb_last. reflexivity.
  - apply existsb_eqb_last.
  - reflexivity.
Qed.

Lemma markJobSent_contacts_witness :
  isEmailSent "a@acme.io" (markJobSent job_a (store_of [])) = true.
Proof.
  destruct (markJobSent_contacts job_a (store_of [])) as [H _].
  exact (H "a@acme.io" eq_refl eq_refl).
Defined.

Lemma isCompanySent_lower c c' st :
  toLowerCase c = toLowerCase c' -> isCompanySent c st = isCompanySent c' st.
Proof. unfold isCompanySent. now intros ->. Qed.

(** X8: once a [sent] or [failed] record for a listing has been written,
    the dedup filter of every later cycle drops every listing whose
    company matches it up to letter case. *)
Theorem filterNewJobs_skips_recorded_company j st st' js :
  (SysSteps (markJobSent j st) st' \/ exists msg, SysSteps (markJobFailed j msg st) st') ->
  forall j', In j' (filterNewJobs js st') ->
  toLowerCase (company j') <> toLowerCase (company j).
Proof.
  intros Hsteps j' Hin Heq.
  assert (Hc : isCompanySent (company j) st' = true).
  { destruct Hsteps as [H | [msg H]];
      (eapply isCompanySent_extends; [apply extends_SysSteps, H|]);
      apply isCompanySent_after_record. }
  rewrite filterNewJobs_spec in Hin. apply filter_In in Hin as [_ Hp].
  rewrite (isCompanySent_lower _ _ st' Heq), Hc in Hp.
  rewrite andb_false_r in Hp. discriminate.
Qed.

Lemma filterNewJobs_skips_recorded_company_witness :
  SysSteps (markJobFailed job_a "550" (store_of [])) (markJobFailed job_a "550" (store_of []))
  /\ ~ In (listing "ACME" "jobs@acme.io" "Hi")
         (filterNewJobs [listing "ACME" "jobs@acme.io" "Hi"]
                        (markJobFailed job_a "550" (store_of []))).
Proof.
  assert (H : SysSteps (markJobFailed job_a "550" (store_of []))
                       (markJobFailed job_a "550" (store_of []))) by apply steps_refl.
  split; [exact H|]. intros Hin.
  exact (filterNewJobs_skips_recorded_company job_a (store_of []) _ _
           (or_intror (ex_intro _ "550" H)) _ Hin eq_refl).
Defined.

(** X10: discovery returns its listings ranked: each carries the score
    [scoreJob] gives it against the extracted profile (an empty one when
    the answer has none), the list is ordered by non-increasing score, and
    it holds exactly the listings of the answer, none lost or duplicated. *)
Theorem analyzeAndFindJobs_ranked p js :
  let ranked := snd (analyzeAndFindJobs (Some (mkAnswer p (Some js)))) in
  let profile := match p with Some q => q | None => empty_profile end in
  Sorted ranked_before ranked
  /\ Permutation (map (fun job => with_score job (scoreJob job profile)) js) ranked.
Proof. apply sortByScore_spec. Qed.

(** ** Edge behaviour of one item, of a cycle and of the setup *)

Lemma unescape_newlines_empty s :
  unescape_newlines s = EmptyString <-> s = EmptyString.
Proof.
  split; [|now intros ->].
  destruct s as [|c1 [|c2 rest]]; simpl; [auto| discriminate|].
  destruct (Ascii.eqb c1 "092"%char && Ascii.eqb c2 "n"%char); discriminate.
Qed.

(** X11: the generated body is empty exactly when [emailBody] is missing
    or empty; such a listing fails with [No email body generated] before
    any send is tried, and a listing with a non-empty [emailBody] never
    fails for that reason. *)
Theorem empty_body_fails sm nm j st :
  (truthy (emailBody j) = false ->
   processOne sm nm j st
   = (markJobFailed j "No email body generated" st, Some "No email body generated"))
  /\ (truthy (emailBody j) = true -> jobBody j <> EmptyString).
Proof.
  assert (Hb : jobBody j = EmptyString <-> truthy (emailBody j) = false).
  { unfold jobBody, or_default, truthy. rewrite unescape_newlines_empty.
    destruct (emailBody j) as [b|]; [|tauto].
    destruct (String.eqb b EmptyString) eqn:E; simpl.
    - apply String.eqb_eq in E. tauto.
    - split; [intros ->; discriminate | discriminate]. }
  split.
  - intros Hf. apply Hb in Hf. unfold processOne. cbv zeta.
    rewrite Hf. reflexivity.
  - intros Ht Hj. apply Hb in Hj. congruence.
Qed.

Lemma empty_body_fails_witness :
  snd (processOne smtp_ok "Dev" (listing "Acme" "a@acme.io" EmptyString) (store_of []))
  = Some "No email body generated".
Proof.
  rewrite (proj1 (empty_body_fails smtp_ok "Dev" (listing "Acme" "a@acme.io" EmptyString)
                    (store_of [])) eq_refl).
  reflexivity.
Defined.

(** X13: the setup step never changes the history that the program reads
    back nor the queue; it only creates [jobs.json] when it is absent, so
    afterwards the file exists. *)
Theorem verifySetupDb_keeps_history st :
  loadJobsDb (verifySetupDb st) = loadJobsDb st
  /\ queue_file (verifySetupDb st) = queue_file st
  /\ jobs_file (verifySetupDb st) <> Missing.
Proof.
  unfold verifySetupDb.
  destruct (jobs_file st) eqn:E; cbn.
  - unfold loadJobsDb. rewrite E. repeat split; discriminate.
  - repeat split; congruence.
  - repeat split; congruence.
Qed.

Lemma length_filter_le {A} (f : A -> bool) l : length (filter f l) <= length l.
Proof. induction l as [|x l IH]; simpl; [lia|]. destruct (f x); simpl; lia. Qed.

(** X14: a score never exceeds 215 (100 + 40 + 30 + 25 + 20) plus 15 per
    entry of the profile's skill lists. *)
Theorem scoreJob_upper_bound job profile :
  scoreJob job profile <= 215 + 15 * length (allSkills profile).
Proof.
  unfold scoreJob. cbv zeta.
  rewrite (fold_count (fun sk => includes _ (toLowerCase sk))).
  pose proof (length_filter_le
                (fun sk => includes
                   (toLowerCase (tmpl (role job) ++ " " ++ tmpl (snippet job) ++ " "
                                 ++ or_default (requirements job) EmptyString))
                   (toLowerCase sk)) (allSkills profile)).
  repeat match goal with
         | |- context [if ?b then _ else _] => destruct b
         end; lia.
Qed.

(** X15: enqueueing grows the queue by the number of listings added and
    never touches the history; an unreadable queue file is read as empty,
    so it is replaced by exactly the added listings. *)
Theorem addJobsToQueue_size js st :
  getQueueSize (addJobsToQueue js st) = getQueueSize st + length js
  /\ loadJobsDb (addJobsToQueue js st) = loadJobsDb st
  /\ (queue_file st = Garbage -> loadQueue (addJobsToQueue js st) = js).
Proof.
  unfold getQueueSize, addJobsToQueue, saveQueue, loadJobsDb, loadQueue; cbn.
  split; [apply length_app|split; [reflexivity|]].
  intros ->. reflexivity.
Qed.

Lemma addJobsToQueue_size_witness :
  loadQueue (addJobsToQueue [job_a] (mkStore Missing Garbage)) = [job_a].
Proof. apply (addJobsToQueue_size [job_a] (mkStore Missing Garbage)). reflexivity. Defined.

(** ** Sends per Scheduled cycle *)

Lemma sent_count_app a b : sent_count (a ++ b)%list = sent_count a + sent_count b.
Proof. unfold sent_count. now rewrite filter_app, length_app. Qed.

Lemma attempts_app a b : attempts (a ++ b)%list = attempts a + attempts b.
Proof. unfold attempts. now rewrite filter_app, length_app. Qed.

Lemma sent_count_le_attempts evs : sent_count evs <= attempts evs.
Proof.
  unfold sent_count, attempts.
  induction evs as [|e evs IH]; simpl; [lia|].
  destruct e as [| |j [m|]| |]; simpl; lia.
Qed.

Lemma bounded_run_counts sm nm st :
  let '(_, evs, c) := processJobQueue sm nm false st in
  c = sent_count evs /\ attempts evs <= MAX_EMAILS_PER_RUN.
Proof.
  pose proof (run_history sm nm false st) as H.
  destruct (processJobQueue sm nm false st) as [[st' evs] c].
  destruct H as (_ & Hc & Ha). split; [exact Hc|].
  rewrite Ha. unfold jobsToProcessOf. rewrite length_firstn. lia.
Qed.

(** X16: a Scheduled cycle makes at most 24 send attempts, two Bounded
    runs of at most 12, and at most 23 of them succeed: the second run
    only happens when the first one sent fewer than 12. *)
Theorem cycle_send_bound sm dflt up answer st :
  let evs := snd (runJobApplicationCycle sm dflt up answer st) in
  sent_count evs <= 2 * MAX_EMAILS_PER_RUN - 1
  /\ attempts evs <= 2 * MAX_EMAILS_PER_RUN.
Proof.
  unfold runJobApplicationCycle. destruct up; reduce; [|cbv; lia].
  destruct (analyzeAndFindJobs answer) as [[p|] found]; [|cbv; lia].
  set (nm := or_default (name p) dflt).
  assert (Hsecond : forall st1,
    let '(st3, evs2, _) := processJobQueue sm nm false st1 in
    sent_count evs2 <= MAX_EMAILS_PER_RUN /\ attempts evs2 <= MAX_EMAILS_PER_RUN).
  { intros st1. pose proof (bounded_run_counts sm nm st1) as H.
    destruct (processJobQueue sm nm false st1) as [[? evs2] ?].
    pose proof (sent_count_le_attempts evs2). lia. }
  assert (Hjobs : forall st1 evs1,
    sent_count evs1 < MAX_EMAILS_PER_RUN -> attempts evs1 <= MAX_EMAILS_PER_RUN ->
    let evs := snd
      match found with
      | [] => (st1, ([EvUpload; EvDiscover] ++ evs1)%list)
      | _ :: _ =>
          match filterNewJobs found st1 with
          | [] => (st1, ([EvUpload; EvDiscover] ++ evs1)%list)
          | _ :: _ =>
              let '(st3, evs2, _) :=
                processJobQueue sm nm false (addJobsToQueue (filterNewJobs found st1) st1) in
              (st3, ([EvUpload; EvDiscover] ++ evs1 ++ [EvEnqueue (filterNewJobs found st1)]
                     ++ evs2)%list)
          end
      end in
    sent_count evs <= 2 * MAX_EMAILS_PER_RUN - 1
    /\ attempts evs <= 2 * MAX_EMAILS_PER_RUN).
  { intros st1 evs1 Hs Ha.
    destruct found as [|x js]; cbn [snd].
    { rewrite sent_count_app, attempts_app. cbv [sent_count attempts filter length] in *.
      unfold MAX_EMAILS_PER_RUN in *. lia. }
    destruct (filterNewJobs (x :: js) st1) as [|y ys]; cbn [snd].
    { rewrite sent_count_app, attempts_app. cbv [sent_count attempts filter length] in *.
      unfold MAX_EMAILS_PER_RUN in *. lia. }
    specialize (Hsecond (addJobsToQueue (y :: ys) st1)).
    destruct (processJobQueue _ _ _ _) as [[st3 evs2] c2]. cbn [snd].
    rewrite !sent_count_app, !attempts_app.
    change (sent_count [EvUpload; EvDiscover]) with 0.
    change (attempts [EvUpload; EvDiscover]) with 0.
    change (sent_count [EvEnqueue (y :: ys)]) with 0.
    change (attempts [EvEnqueue (y :: ys)]) with 0.
    unfold MAX_EMAILS_PER_RUN in *. lia. }
  destruct (Nat.ltb 0 (getQueueSize st)); reduce.
  - pose proof (bounded_run_counts sm nm st) as Hb.
    destruct (processJobQueue sm nm false st) as [[st1 evs1] c]; reduce.
    destruct Hb as [-> Ha].
    destruct (Nat.leb MAX_EMAILS_PER_RUN (sent_count evs1)) eqn:E.
    + cbn [snd]. rewrite sent_count_app, attempts_app.
      pose proof (sent_count_le_attempts evs1).
      change (sent_count [EvUpload; EvDiscover]) with 0.
      change (attempts [EvUpload; EvDiscover]) with 0.
      unfold MAX_EMAILS_PER_RUN in *. lia.
    + apply Nat.leb_gt in E. exact (Hjobs st1 evs1 E Ha).
  - apply (Hjobs st []); cbv; lia.
Qed.
